(** * The GPU allocator of [xgboost/parallel-hp-tuning-with-gpus.ipynb]

    The notebook's [Objective] class keeps a list [gpu_status] with one
    in-flight counter per GPU.  [get_next_gpu] picks a GPU and increments its
    counter; [__call__] runs one Optuna trial on the GPU it got and decrements
    the counter afterwards.  This file embeds that code and states the
    allocator's properties about the embedding.

    Counters and GPU ids are Python integers, hence [Z]; [gpu_status] is a
    Python list, hence [list Z] with stdpp's lookup [!!] and insert
    [<[_:=_]>], the Python index rules (negative indices, [IndexError])
    written out in [py_index]. *)

From stdpp Require Import base numbers list.

Open Scope Z_scope.

(** ** Outcomes of Python code acting on [self.gpu_status] *)

(** The exceptions the embedded code can end with. *)
Inductive exn : Type :=
| IndexError          (* list index out of range *)
| UnboundLocalError   (* [gpu_id] read in [__call__] when [use_gpus] is false *)
| TrainingError.      (* whatever [bst.fit] / [bst.score] raised *)

(** A call either returns a value, raises, or never returns.  The first two
    carry [gpu_status] as the call left it: the list is a field of the
    object and outlives an exception. *)
Inductive outcome (A : Type) : Type :=
| Returned (a : A) (gpu_status : list Z)
| Raised (e : exn) (gpu_status : list Z)
| Diverged.

Arguments Returned {A} a gpu_status.
Arguments Raised {A} e gpu_status.
Arguments Diverged {A}.

(** Code that reads and mutates [self.gpu_status]. *)
Definition M (A : Type) : Type := list Z → outcome A.

Definition raise {A} (e : exn) : M A := λ s, Raised e s.

(** [M] with stdpp's monad notation: [x ← m; k] runs [m] and, when it
    returned, [k]; an exception or a loop that never ends cuts the rest. *)
#[global] Instance M_ret : MRet M := λ A a s, Returned a s.

#[global] Instance M_bind : MBind M := λ A B f m s,
  match m s with
  | Returned a s' => f a s'
  | Raised e s' => Raised e s'
  | Diverged => Diverged
  end.

(** ** Python list indexing *)

(** [lst[i]] on a list of length [n]: [0 ≤ i < n] is position [i],
    [-n ≤ i < 0] is position [n + i], anything else is an [IndexError]. *)
Definition py_index (n : nat) (i : Z) : option nat :=
  if decide (0 ≤ i < Z.of_nat n) then Some (Z.to_nat i)
  else if decide (- Z.of_nat n ≤ i < 0) then Some (Z.to_nat (Z.of_nat n + i))
  else None.

(** [self.gpu_status[i] += d]: read the item, add, store it back. *)
Definition gpu_status_iadd (i d : Z) : M () := λ s,
  match py_index (length s) i with
  | Some k =>
      match s !! k with
      | Some stat => Returned () (<[k := stat + d]> s)
      | None => Raised IndexError s
      end
  | None => Raised IndexError s
  end.

Definition sum_status (s : list Z) : Z := foldr Z.add 0 s.

Module Objective.

(** [self.num_gpus = num_gpus or 1;
     self.gpu_status = [0 for _ in range(self.num_gpus)]]:
    [None] and [0] are falsy; [range] of a negative number is empty. *)
Definition __init__ (num_gpus : option Z) : list Z :=
  let num_gpus := match num_gpus with
                  | None | Some 0 => 1
                  | Some n => n
                  end in
  replicate (Z.to_nat num_gpus) 0.

(** The [for gpu_id, stat in enumerate(self.gpu_status)] loop of
    [_find_gpu], entered at index [gpu_id]: the first [stat <= min_stat]
    breaks out with its index; running off the end leaves [None]. *)
Fixpoint enumerate_scan (gpu_id : nat) (min_stat : Z) (stats : list Z)
  : option nat :=
  match stats with
  | [] => None
  | stat :: rest =>
      if decide (stat ≤ min_stat) then Some gpu_id
      else enumerate_scan (S gpu_id) min_stat rest
  end.

Definition _find_gpu (min_stat : Z) (gpu_status : list Z) : option nat :=
  enumerate_scan 0 min_stat gpu_status.

(** [while(next_gpu is None): next_gpu = _find_gpu(min_stat=min_stat + 1)].
    The body assigns [next_gpu] only; [min_stat] keeps its value.  [fuel]
    bounds the number of iterations: none left means the loop is still
    running. *)
Fixpoint while_next_gpu_is_None (fuel : nat) (min_stat : Z)
    (gpu_status : list Z) : option nat :=
  match fuel with
  | O => None
  | S fuel' =>
      match _find_gpu (min_stat + 1) gpu_status with
      | Some next_gpu => Some next_gpu
      | None => while_next_gpu_is_None fuel' min_stat gpu_status
      end
  end.

Definition get_next_gpu (fuel : nat) : M Z :=
  let min_stat := 0 in
  next_gpu ← (λ s, match while_next_gpu_is_None fuel min_stat s with
                   | Some g => Returned (Z.of_nat g) s
                   | None => Diverged
                   end) : M Z;
  gpu_status_iadd next_gpu 1;;
  mret next_gpu.

(** The last statement of [__call__] before [return score]:
    [self.gpu_status[gpu_id] -= 1]. *)
Definition release (gpu_id : Z) : M () := gpu_status_iadd gpu_id (-1).

Section Trial.
(** The score [bst.score] returns. *)
Variable score : Type.
(** Building, fitting and scoring the classifier with the sampled
    parameters, by [gpu_id] when [params] has one.  It is xgboost's code
    and does not touch [gpu_status]; [None] stands for an exception. *)
Variable fit_and_score : option Z → option score.

Definition train (gpu_id : option Z) : M score := λ s,
  match fit_and_score gpu_id with
  | Some sc => Returned sc s
  | None => Raised TrainingError s
  end.

(** [gpu_id] is a local of [__call__], bound only under [if self.use_gpus]. *)
Definition __call__ (fuel : nat) (use_gpus : bool) : M score :=
  gpu_id ← (if use_gpus
            then g ← get_next_gpu fuel; mret (Some g)
            else mret None);
  sc ← train gpu_id;
  match gpu_id with
  | Some g => release g
  | None => raise UnboundLocalError
  end;;
  mret sc.
End Trial.

End Objective.

Import Objective.

(** ** Sequences of allocator calls *)

Inductive call : Type :=
| Acquire
| Release (gpu_id : Z).

(** How a sequence of calls ended. *)
Inductive run_result : Type :=
| Finished (gpu_status leases : list Z)
| Spinning                 (* an acquire never returned *)
| NotLeased (gpu_id : Z)   (* a release of an id nobody holds *)
| Failed (e : exn).

(** Gives back one lease of [gpu_id]. *)
Fixpoint unlease (gpu_id : Z) (leases : list Z) : list Z :=
  match leases with
  | [] => []
  | g :: rest => if decide (g = gpu_id) then rest else g :: unlease gpu_id rest
  end.

(** Runs the calls in order on [gpu_status].  [leases] are the ids handed out
    by an acquire and not released since; a release has to name one of
    them. *)
Fixpoint exec (fuel : nat) (calls : list call) (gpu_status leases : list Z)
  : run_result :=
  match calls with
  | [] => Finished gpu_status leases
  | Acquire :: calls' =>
      match get_next_gpu fuel gpu_status with
      | Returned g s' => exec fuel calls' s' (g :: leases)
      | Raised e _ => Failed e
      | Diverged => Spinning
      end
  | Release g :: calls' =>
      if decide (g ∈ leases) then
        match release g gpu_status with
        | Returned _ s' => exec fuel calls' s' (unlease g leases)
        | Raised e _ => Failed e
        | Diverged => Spinning
        end
      else NotLeased g
  end.

(** [n] acquires in a row; the ids they returned, in call order. *)
Fixpoint acquire_n (fuel : nat) (n : nat) : M (list Z) :=
  match n with
  | O => mret []
  | S n' => g ← get_next_gpu fuel; gs ← acquire_n fuel n'; mret (g :: gs)
  end.

(** acquire, acquire, acquire, release(first). *)
Definition three_acquires_release_first (fuel : nat) : M (list Z) :=
  g1 ← get_next_gpu fuel;
  g2 ← get_next_gpu fuel;
  g3 ← get_next_gpu fuel;
  release g1;;
  mret [g1; g2; g3].

(** How many leases of [gpu_id] are out. *)
Fixpoint held (gpu_id : Z) (leases : list Z) : Z :=
  match leases with
  | [] => 0
  | g :: rest => (if decide (g = gpu_id) then 1 else 0) + held gpu_id rest
  end.

(** The accounting the allocator is meant to keep: every lease names a GPU of
    the pool, each counter is the number of leases out on its GPU, and the
    counters add up to the number of leases. *)
Definition lease_inv (gpu_status leases : list Z) : Prop :=
  (∀ g, g ∈ leases → 0 ≤ g < Z.of_nat (length gpu_status)) ∧
  (∀ k c, gpu_status !! k = Some c → c = held (Z.of_nat k) leases) ∧
  sum_status gpu_status = Z.of_nat (length leases).

(** How many acquires the pool can still serve before one has to wait: a GPU
    is chosen while its counter is at most 1, so a counter [stat] leaves room
    for [2 - stat] acquires, and for none once it is 2 or more. *)
Definition headroom (gpu_status : list Z) : Z :=
  foldr (λ stat room, Z.max 0 (2 - stat) + room) 0 gpu_status.

(** Trials run one after the other on the same [Objective], as a study with
    [n_jobs=1] runs them.  Every trial has its own sampled parameters, hence
    its own training outcome; the first exception ends the run. *)
Fixpoint run_trials {score : Type} (fuel : nat) (use_gpus : bool)
    (trials : list (option Z → option score)) : M (list score) :=
  match trials with
  | [] => mret []
  | fit_and_score :: trials' =>
      sc ← __call__ score fit_and_score fuel use_gpus;
      scs ← run_trials fuel use_gpus trials';
      mret (sc :: scs)
  end.

(** ** The flow of [prefect-dask-executor.ipynb] *)

Module PrefectFlow.

(** The tasks.  [sleep(random.random() / 10)] takes time and nothing else;
    the arguments are Python integers. *)
Definition inc (x : Z) : Z := x + 1.

Definition dec (x : Z) : Z := x - 1.

Definition add (x y : Z) : Z := x + y.

(** [sum(arr)]: the items added to 0 from the left. *)
Definition list_sum (arr : list Z) : Z := foldl Z.add 0 arr.

(** [range(n)]: empty when [n] is not positive. *)
Definition range (n : Z) : list Z := seqZ 0 n.

(** The flow [dask-example], the 100 of its two [range(100)] taken as [n].
    A mapped task runs once per item; [add.map(x=incs, y=decs)] pairs the
    items of the two lists, which have the same length. *)
Definition flow (n : Z) : Z :=
  let incs := inc <$> range n in
  let decs := dec <$> range n in
  let adds := zip_with add incs decs in
  list_sum adds.

End PrefectFlow.

(** ** Facts about the embedding *)

Section index_facts.
Implicit Types (s : list Z) (k : nat) (i d c : Z).

Lemma py_index_of_nat s k :
  (k < length s)%nat → py_index (length s) (Z.of_nat k) = Some k.
Proof.
  intros Hk. unfold py_index.
  rewrite decide_True by lia. by rewrite Nat2Z.id.
Qed.

Lemma py_index_negative s i :
  - Z.of_nat (length s) ≤ i < 0 →
  py_index (length s) i = Some (Z.to_nat (Z.of_nat (length s) + i)).
Proof.
  intros Hi. unfold py_index.
  rewrite decide_False by lia. by rewrite decide_True by lia.
Qed.

Lemma py_index_out_of_range s i :
  i < - Z.of_nat (length s) ∨ Z.of_nat (length s) ≤ i →
  py_index (length s) i = None.
Proof.
  intros Hi. unfold py_index.
  rewrite decide_False by lia. by rewrite decide_False by lia.
Qed.

Lemma py_index_lt n i k : py_index n i = Some k → (k < n)%nat.
Proof.
  unfold py_index. repeat case_decide; intros [= <-]; lia.
Qed.

Lemma gpu_status_iadd_at s k c d :
  s !! k = Some c →
  gpu_status_iadd (Z.of_nat k) d s = Returned () (<[k := c + d]> s).
Proof.
  intros Hk. unfold gpu_status_iadd.
  rewrite py_index_of_nat by (by eapply lookup_lt_Some).
  by rewrite Hk.
Qed.

(** [gpu_status_iadd] either updates one item or raises and changes
    nothing. *)
Lemma gpu_status_iadd_cases i d s :
  (∃ k c, py_index (length s) i = Some k ∧ s !! k = Some c ∧
          gpu_status_iadd i d s = Returned () (<[k := c + d]> s))
  ∨ (py_index (length s) i = None ∧
     gpu_status_iadd i d s = Raised IndexError s).
Proof.
  unfold gpu_status_iadd.
  destruct (py_index (length s) i) as [k|] eqn:Hi; [left | by right].
  destruct (lookup_lt_is_Some_2 s k (py_index_lt _ _ _ Hi)) as [c Hc].
  exists k, c. by rewrite Hc.
Qed.

Lemma sum_status_insert s k c c' :
  s !! k = Some c → sum_status (<[k := c']> s) = sum_status s - c + c'.
Proof.
  revert k. induction s as [|x s IH]; intros [|k] Hk; simplify_eq/=.
  - lia.
  - rewrite (IH _ Hk). lia.
Qed.

Lemma sum_status_replicate_0 (n : nat) : sum_status (replicate n 0) = 0.
Proof. induction n as [|n IH]; simpl; [done | by rewrite IH]. Qed.
End index_facts.

Section find_facts.
Implicit Types (s : list Z) (k g : nat) (m c : Z).

Lemma enumerate_scan_list_find i m s :
  enumerate_scan i m s
  = (λ p : nat * Z, (i + p.1)%nat) <$> list_find (λ c, c ≤ m) s.
Proof.
  revert i. induction s as [|x s IH]; intros i; simpl; [done |].
  case_decide; simpl.
  - f_equal. lia.
  - rewrite IH. destruct (list_find _ s) as [[j y]|]; simpl; [|done].
    f_equal. lia.
Qed.

(** [_find_gpu] returns the first index whose counter is at most
    [min_stat]. *)
Lemma _find_gpu_Some m s g :
  _find_gpu m s = Some g ↔
  ∃ c, s !! g = Some c ∧ c ≤ m ∧
       ∀ j y, s !! j = Some y → (j < g)%nat → m < y.
Proof.
  unfold _find_gpu. rewrite enumerate_scan_list_find. split.
  - destruct (list_find _ s) as [[j y]|] eqn:Hf; intros [= <-].
    apply list_find_Some in Hf as (Hj & Hy & Hlt).
    exists y. repeat split; [done..|].
    intros j' y' Hj' Hlt'. specialize (Hlt j' y' Hj' Hlt'). lia.
  - intros (c & Hg & Hc & Hlt).
    assert (list_find (λ c, c ≤ m) s = Some (g, c)) as ->; [|done].
    apply list_find_Some. repeat split; [done..|].
    intros j y Hj Hjg. specialize (Hlt j y Hj Hjg). lia.
Qed.

Lemma _find_gpu_None m s :
  _find_gpu m s = None ↔ Forall (λ c, m < c) s.
Proof.
  unfold _find_gpu. rewrite enumerate_scan_list_find.
  rewrite fmap_None, list_find_None.
  apply Forall_proper; [|done]. intros c. lia.
Qed.

(** One iteration decides the loop: later iterations see the same list
    and the same threshold. *)
Lemma while_next_gpu_is_None_S fuel m s :
  while_next_gpu_is_None (S fuel) m s = _find_gpu (m + 1) s.
Proof.
  induction fuel as [|fuel IH].
  - simpl. by destruct (_find_gpu (m + 1) s).
  - change (while_next_gpu_is_None (S (S fuel)) m s)
      with (match _find_gpu (m + 1) s with
            | Some next_gpu => Some next_gpu
            | None => while_next_gpu_is_None (S fuel) m s
            end).
    rewrite IH. by destruct (_find_gpu (m + 1) s).
Qed.
End find_facts.

Section get_next_gpu_facts.
Implicit Types (s : list Z) (k : nat) (g c : Z).

(** With fuel for one iteration, [get_next_gpu] is one [_find_gpu 1] and
    the increment. *)
Lemma get_next_gpu_S fuel s :
  get_next_gpu (S fuel) s
  = match _find_gpu 1 s with
    | Some k =>
        ((gpu_status_iadd (Z.of_nat k) 1;; mret (Z.of_nat k)) : M Z) s
    | None => Diverged
    end.
Proof.
  unfold get_next_gpu, mbind, M_bind.
  rewrite while_next_gpu_is_None_S. change (0 + 1) with 1.
  by destruct (_find_gpu 1 s).
Qed.

Lemma get_next_gpu_0 s : get_next_gpu 0 s = Diverged.
Proof. done. Qed.

Lemma get_next_gpu_fuel fuel s : get_next_gpu (S fuel) s = get_next_gpu 1 s.
Proof. by rewrite !get_next_gpu_S. Qed.

Lemma get_next_gpu_Returned fuel s g s' :
  get_next_gpu fuel s = Returned g s' ↔
  fuel ≠ 0%nat ∧
  ∃ k c, g = Z.of_nat k ∧ s !! k = Some c ∧ c ≤ 1 ∧
         (∀ j y, s !! j = Some y → (j < k)%nat → 1 < y) ∧
         s' = <[k := c + 1]> s.
Proof.
  destruct fuel as [|fuel]; [split; [done | by intros [? _]]|].
  rewrite get_next_gpu_S. split.
  - destruct (_find_gpu 1 s) as [k|] eqn:Hf; [|done].
    apply _find_gpu_Some in Hf as (c & Hk & Hc & Hlt).
    unfold mbind, M_bind. rewrite (gpu_status_iadd_at _ _ _ _ Hk).
    intros [= <- <-]. split; [done|]. by exists k, c.
  - intros (_ & k & c & -> & Hk & Hc & Hlt & ->).
    assert (_find_gpu 1 s = Some k) as ->.
    { apply _find_gpu_Some. by exists c. }
    unfold mbind, M_bind. by rewrite (gpu_status_iadd_at _ _ _ _ Hk).
Qed.

Lemma get_next_gpu_Diverged fuel s :
  get_next_gpu fuel s = Diverged ↔ fuel = 0%nat ∨ Forall (λ c, 1 < c) s.
Proof.
  destruct fuel as [|fuel]; [split; [by left | done]|].
  rewrite get_next_gpu_S, <-_find_gpu_None. split.
  - destruct (_find_gpu 1 s) as [k|] eqn:Hf; [|by right].
    apply _find_gpu_Some in Hf as (c & Hk & _).
    unfold mbind, M_bind. by rewrite (gpu_status_iadd_at _ _ _ _ Hk).
  - intros [?| ->]; done.
Qed.

Lemma get_next_gpu_not_Raised fuel s e s' :
  get_next_gpu fuel s ≠ Raised e s'.
Proof.
  destruct fuel as [|fuel]; [done|]. rewrite get_next_gpu_S.
  destruct (_find_gpu 1 s) as [k|] eqn:Hf; [|done].
  apply _find_gpu_Some in Hf as (c & Hk & _).
  unfold mbind, M_bind. by rewrite (gpu_status_iadd_at _ _ _ _ Hk).
Qed.

Lemma acquire_n_fuel fuel n s : acquire_n (S fuel) n s = acquire_n 1 n s.
Proof.
  revert s. induction n as [|n IH]; intros s; [done|].
  simpl. unfold mbind, M_bind. rewrite get_next_gpu_fuel.
  destruct (get_next_gpu 1 s) as [g s'| |]; [|done..].
  by rewrite IH.
Qed.
End get_next_gpu_facts.

Section lease_facts.
Implicit Types (s leases : list Z) (k : nat) (g c : Z).

Lemma held_nonneg g leases : 0 ≤ held g leases.
Proof. induction leases; simpl; [done | case_decide; lia]. Qed.

Lemma held_le_length g leases : held g leases ≤ Z.of_nat (length leases).
Proof. induction leases; simpl; [done | case_decide; lia]. Qed.

Lemma held_elem_of g leases : g ∈ leases → 1 ≤ held g leases.
Proof.
  induction 1 as [g leases | g g' leases _ IH]; simpl.
  - rewrite decide_True by done. pose proof (held_nonneg g leases). lia.
  - case_decide; lia.
Qed.

Lemma held_unlease g g' leases :
  g ∈ leases →
  held g' (unlease g leases)
  = held g' leases - (if decide (g = g') then 1 else 0).
Proof.
  induction leases as [|x leases IH]; intros Hg; [by inv Hg|].
  simpl. destruct (decide (x = g)) as [->|Hx].
  - lia.
  - simpl. rewrite IH; [lia|]. by apply elem_of_cons in Hg as [->|].
Qed.

Lemma length_unlease g leases :
  g ∈ leases → S (length (unlease g leases)) = length leases.
Proof.
  induction leases as [|x leases IH]; intros Hg; [by inv Hg|].
  simpl. case_decide as Hx; [done|]. simpl. rewrite IH; [done|].
  apply elem_of_cons in Hg as [->|]; done.
Qed.

Lemma elem_of_unlease g g' leases : g' ∈ unlease g leases → g' ∈ leases.
Proof.
  induction leases as [|x leases IH]; [done|]. simpl.
  case_decide.
  - by apply list_elem_of_further.
  - rewrite !elem_of_cons. intros [->|?]; auto.
Qed.

Lemma lease_inv_init num_gpus : lease_inv (__init__ num_gpus) [].
Proof.
  unfold __init__. split; [|split].
  - intros g Hg. by inv Hg.
  - intros k c [-> _]%lookup_replicate. done.
  - apply sum_status_replicate_0.
Qed.

Lemma lease_inv_acquire fuel s leases g s' :
  lease_inv s leases →
  get_next_gpu fuel s = Returned g s' →
  lease_inv s' (g :: leases).
Proof.
  intros (Hr & Hc & Hsum) (_ & k & c & -> & Hk & _ & _ & ->)%get_next_gpu_Returned.
  split; [|split].
  - rewrite length_insert.
    intros g [->|Hg]%elem_of_cons; [|by apply Hr].
    apply lookup_lt_Some in Hk. lia.
  - intros j y. simpl. destruct (decide (k = j)) as [<-|Hne].
    + rewrite list_lookup_insert_eq by (by eapply lookup_lt_Some).
      intros [= <-]. rewrite decide_True by done.
      rewrite (Hc _ _ Hk). lia.
    + rewrite list_lookup_insert_ne by done. intros Hj.
      rewrite decide_False by lia. rewrite (Hc _ _ Hj). lia.
  - rewrite (sum_status_insert _ _ _ _ Hk), Hsum. simpl length. lia.
Qed.

(** Releasing a lease that is out always succeeds and keeps the books. *)
Lemma lease_inv_release s leases g :
  lease_inv s leases →
  g ∈ leases →
  ∃ s', release g s = Returned () s' ∧ lease_inv s' (unlease g leases).
Proof.
  intros (Hr & Hc & Hsum) Hg.
  pose proof (Hr _ Hg) as Hrange.
  destruct (lookup_lt_is_Some_2 s (Z.to_nat g)) as [c Hk]; [lia|].
  exists (<[Z.to_nat g := c + -1]> s). split.
  { unfold release. rewrite <-(Z2Nat.id g) at 1 by lia.
    by apply gpu_status_iadd_at. }
  split; [|split].
  - rewrite length_insert. by intros g' Hg'%elem_of_unlease%Hr.
  - intros j y. rewrite held_unlease by done.
    destruct (decide (Z.to_nat g = j)) as [<-|Hne].
    + rewrite list_lookup_insert_eq by (by eapply lookup_lt_Some).
      intros [= <-]. rewrite decide_True by lia.
      rewrite (Hc _ _ Hk). lia.
    + rewrite list_lookup_insert_ne by done. intros Hj.
      rewrite decide_False by lia. rewrite (Hc _ _ Hj). lia.
  - rewrite (sum_status_insert _ _ _ _ Hk), Hsum.
    apply length_unlease in Hg. lia.
Qed.

(** The accounting holds after every sequence of calls that ran to its
    end. *)
Lemma lease_inv_exec fuel calls s leases s' leases' :
  lease_inv s leases →
  exec fuel calls s leases = Finished s' leases' →
  lease_inv s' leases'.
Proof.
  revert s leases. induction calls as [|[|g] calls IH]; intros s leases Hinv.
  - by intros [= <- <-].
  - simpl. destruct (get_next_gpu fuel s) as [g s1| |] eqn:Hacq; [|done..].
    apply IH. by eapply lease_inv_acquire.
  - simpl. case_decide as Hg; [|done].
    destruct (lease_inv_release _ _ _ Hinv Hg) as (s1 & -> & Hinv1).
    by apply IH.
Qed.

(** Running a sequence runs each of its prefixes first, so what holds at
    the end of every finished sequence holds at every point on the way. *)
Lemma exec_app fuel calls1 calls2 s leases :
  exec fuel (calls1 ++ calls2) s leases
  = match exec fuel calls1 s leases with
    | Finished s1 leases1 => exec fuel calls2 s1 leases1
    | r => r
    end.
Proof.
  revert s leases. induction calls1 as [|[|g] calls1 IH]; intros s leases.
  - done.
  - simpl. by destruct (get_next_gpu fuel s).
  - simpl. case_decide; [|done]. by destruct (release g s).
Qed.

(** A sequence that keeps to its leases never ends in an exception. *)
Lemma exec_not_Failed fuel calls s leases e :
  lease_inv s leases → exec fuel calls s leases ≠ Failed e.
Proof.
  revert s leases. induction calls as [|[|g] calls IH]; intros s leases Hinv.
  - done.
  - simpl. destruct (get_next_gpu fuel s) as [g s1|e' s1|] eqn:Hacq; [| |done].
    + apply IH. by eapply lease_inv_acquire.
    + by apply get_next_gpu_not_Raised in Hacq.
  - simpl. case_decide as Hg; [|done].
    destruct (lease_inv_release _ _ _ Hinv Hg) as (s1 & -> & Hinv1).
    by apply IH.
Qed.

Lemma lease_inv_bounds s leases :
  lease_inv s leases →
  Forall (λ c, 0 ≤ c ≤ Z.of_nat (length leases)) s.
Proof.
  intros (_ & Hc & _). apply Forall_lookup. intros k c Hk.
  rewrite (Hc _ _ Hk). split; [apply held_nonneg | apply held_le_length].
Qed.
End lease_facts.

Section cap_facts.
Implicit Types (s leases : list Z) (g c : Z).

Lemma release_cases g s :
  (∃ k c, py_index (length s) g = Some k ∧ s !! k = Some c ∧
          release g s = Returned () (<[k := c - 1]> s))
  ∨ (py_index (length s) g = None ∧ release g s = Raised IndexError s).
Proof. apply gpu_status_iadd_cases. Qed.

Lemma capped_acquire fuel s g s' :
  Forall (λ c, c ≤ 2) s →
  get_next_gpu fuel s = Returned g s' →
  Forall (λ c, c ≤ 2) s'.
Proof.
  intros Hs (_ & k & c & _ & _ & Hc & _ & ->)%get_next_gpu_Returned.
  apply Forall_insert; [done | lia].
Qed.

Lemma capped_release s g s' :
  Forall (λ c, c ≤ 2) s →
  release g s = Returned () s' →
  Forall (λ c, c ≤ 2) s'.
Proof.
  intros Hs Hrel.
  destruct (release_cases g s) as [(k & c & _ & Hk & Hret)|[_ Hraise]];
    [|congruence].
  rewrite Hret in Hrel. injection Hrel as <-.
  apply Forall_insert; [done|].
  pose proof (Forall_lookup_1 _ _ _ _ Hs Hk) as Hc. simpl in Hc. lia.
Qed.

Lemma capped_exec fuel calls s leases s' leases' :
  Forall (λ c, c ≤ 2) s →
  exec fuel calls s leases = Finished s' leases' →
  Forall (λ c, c ≤ 2) s'.
Proof.
  revert s leases. induction calls as [|[|g] calls IH]; intros s leases Hs.
  - by intros [= <- _].
  - simpl. destruct (get_next_gpu fuel s) as [g s1| |] eqn:Hacq; [|done..].
    apply IH. by eapply capped_acquire.
  - simpl. case_decide; [|done].
    destruct (release g s) as [[] s1| |] eqn:Hrel; [|done..].
    apply IH. by eapply capped_release.
Qed.

Lemma capped_init num_gpus : Forall (λ c, c ≤ 2) (__init__ num_gpus).
Proof. unfold __init__. by apply Forall_replicate. Qed.
End cap_facts.

(** Fuel beyond one iteration changes nothing in the scenario either. *)
Lemma three_acquires_release_first_fuel fuel s :
  three_acquires_release_first (S fuel) s = three_acquires_release_first 1 s.
Proof.
  unfold three_acquires_release_first, mbind, M_bind.
  rewrite get_next_gpu_fuel.
  destruct (get_next_gpu 1 s) as [g1 s1| |]; [|done..].
  rewrite get_next_gpu_fuel.
  destruct (get_next_gpu 1 s1) as [g2 s2| |]; [|done..].
  by rewrite get_next_gpu_fuel.
Qed.

(** The spec's own check of the tie rule: counters [2,1,1] give index 1. *)
Example get_next_gpu_2_1_1 fuel :
  get_next_gpu (S fuel) [2; 1; 1] = Returned 1 [2; 2; 1].
Proof. by rewrite get_next_gpu_fuel. Qed.

(** Releasing what an acquire just returned undoes its increment. *)
Lemma release_after_acquire fuel (s : list Z) g s' :
  get_next_gpu fuel s = Returned g s' → release g s' = Returned () s.
Proof.
  intros (_ & k & c & -> & Hk & _ & _ & ->)%get_next_gpu_Returned.
  unfold release.
  rewrite (gpu_status_iadd_at _ k (c + 1))
    by (by apply list_lookup_insert_eq, (lookup_lt_Some _ _ _ Hk)).
  rewrite list_insert_insert_eq. replace (c + 1 + -1) with c by lia.
  by rewrite list_insert_id.
Qed.

(** [release(-1)] is a release of the last GPU of the pool. *)
Lemma release_minus_1_last (s : list Z) c :
  last s = Some c →
  release (-1) s = Returned () (<[pred (length s) := c - 1]> s).
Proof.
  intros Hlast. rewrite last_lookup in Hlast.
  assert (0 < length s)%nat by (apply lookup_lt_Some in Hlast; lia).
  unfold release, gpu_status_iadd.
  rewrite py_index_negative by lia.
  replace (Z.to_nat (Z.of_nat (length s) + -1)) with (pred (length s)) by lia.
  by rewrite Hlast.
Qed.

(** ** The claims *)

(** C1 (fails on the code): [get_next_gpu] does not return a GPU with the
    least counter.  With counters [1, 0] it returns GPU 0, whose counter 1 is
    above GPU 1's counter 0, and raises it to 2: the scan takes the first
    counter that is at most 1, and 0 and 1 both pass. *)
Theorem get_next_gpu_passes_over_idle_gpu (fuel : nat) :
  get_next_gpu (S fuel) [1; 0] = Returned 0 [2; 0].
Proof. by rewrite get_next_gpu_fuel. Qed.

(** C2 (fails on the code): on a pool of two GPUs, four acquires return
    [0, 0, 1, 1] and leave the counters at [2, 2]; the next acquire does not
    return, whatever number of loop iterations it is given, because no
    counter is at most 1 and the threshold stays at 1. *)
Theorem get_next_gpu_spins_on_loaded_pool (fuel : nat) :
  acquire_n (S fuel) 4 (__init__ (Some 2)) = Returned [0; 0; 1; 1] [2; 2] ∧
  get_next_gpu fuel [2; 2] = Diverged.
Proof.
  split.
  - by rewrite acquire_n_fuel.
  - apply get_next_gpu_Diverged. right. by repeat constructor.
Qed.

(** C3 (counterexample): releasing GPU 0 of a fresh one-GPU pool, which
    nobody has acquired, raises nothing and drives the counter to -1. *)
Lemma release_unleased_goes_negative :
  release 0 (__init__ (Some 1)) = Returned () [-1] ∧
  ¬ ∃ e, release 0 (__init__ (Some 1)) = Raised e (__init__ (Some 1)).
Proof. split; [done | by intros [e ?]]. Qed.

(** C3 (amended): a release whose id is outside the index range of the list
    ([id >= num_devices] or [id < -num_devices]) raises [IndexError] and
    leaves every counter as it was.  There is no lease check: an id in
    [0, num_devices) has its counter decremented whatever the counter is. *)
Theorem release_error_cases (s : list Z) (gpu_id : Z) :
  (gpu_id < - Z.of_nat (length s) ∨ Z.of_nat (length s) ≤ gpu_id →
   release gpu_id s = Raised IndexError s) ∧
  (0 ≤ gpu_id < Z.of_nat (length s) →
   ∃ c, s !! Z.to_nat gpu_id = Some c ∧
        release gpu_id s = Returned () (<[Z.to_nat gpu_id := c - 1]> s)).
Proof.
  split.
  - intros Hout. unfold release, gpu_status_iadd.
    by rewrite py_index_out_of_range.
  - intros Hin.
    destruct (lookup_lt_is_Some_2 s (Z.to_nat gpu_id)) as [c Hc]; [lia|].
    exists c. split; [done|].
    unfold release. rewrite <-(Z2Nat.id gpu_id) at 1 by lia.
    by rewrite (gpu_status_iadd_at _ _ _ _ Hc).
Qed.

Lemma release_error_cases_witness :
  release 2 [0; 1] = Raised IndexError [0; 1] ∧
  release (-3) [0; 1] = Raised IndexError [0; 1] ∧
  ∃ c, [0; 1] !! Z.to_nat 0 = Some c ∧
       release 0 [0; 1] = Returned () (<[Z.to_nat 0 := c - 1]> [0; 1]).
Proof.
  split; [|split].
  - apply (proj1 (release_error_cases [0; 1] 2)). simpl. lia.
  - apply (proj1 (release_error_cases [0; 1] (-3))). simpl. lia.
  - apply (proj2 (release_error_cases [0; 1] 0)). simpl. lia.
Defined.

(** C4: from a fresh pool, after any sequence of acquires and releases in
    which every release names a lease that is out, every counter is between
    0 and the number of leases out, and the counters add up to that number. *)
Theorem counters_match_leases (fuel : nat) (num_gpus : option Z)
    (calls : list call) (s leases : list Z) :
  exec fuel calls (__init__ num_gpus) [] = Finished s leases →
  Forall (λ c, 0 ≤ c ≤ Z.of_nat (length leases)) s ∧
  sum_status s = Z.of_nat (length leases).
Proof.
  intros Hexec.
  pose proof (lease_inv_exec _ _ _ _ _ _ (lease_inv_init num_gpus) Hexec)
    as Hinv.
  split; [by apply lease_inv_bounds | apply Hinv].
Qed.

Lemma counters_match_leases_witness :
  Forall (λ c, 0 ≤ c ≤ Z.of_nat (length [1; 0])) [1; 1] ∧
  sum_status [1; 1] = Z.of_nat (length [1; 0]).
Proof.
  apply (counters_match_leases 1 (Some 2)
           [Acquire; Acquire; Acquire; Release 0]).
  vm_compute. reflexivity.
Defined.

(** C5: an acquire followed at once by the release of the id it returned
    leaves every counter as it was before the acquire.  The one way for the
    pair not to complete is that the acquire itself does not return, which
    takes a pool whose counters all exceed 1 (or no loop iteration at
    all). *)
Theorem acquire_then_release_is_identity (fuel : nat) (s : list Z) :
  (g ← get_next_gpu fuel; release g) s = Returned () s ∨
  (get_next_gpu fuel s = Diverged ∧
   (fuel = 0%nat ∨ Forall (λ c, 1 < c) s)).
Proof.
  destruct (get_next_gpu fuel s) as [g s'|e s'|] eqn:Hacq.
  - left. unfold mbind, M_bind. rewrite Hacq.
    by eapply release_after_acquire.
  - by apply get_next_gpu_not_Raised in Hacq.
  - right. split; [done|]. by apply get_next_gpu_Diverged.
Qed.

(** C6 (fails on the code): on a pool of one GPU the first two acquires
    return 0 and leave the counter at 2; the third does not return, whatever
    number of loop iterations it is given. *)
Theorem third_acquire_on_one_gpu_spins (fuel : nat) :
  acquire_n (S fuel) 2 (__init__ (Some 1)) = Returned [0; 0] [2] ∧
  acquire_n fuel 3 (__init__ (Some 1)) = Diverged.
Proof.
  split; [by rewrite acquire_n_fuel|].
  destruct fuel as [|fuel]; [done | by rewrite acquire_n_fuel].
Qed.

(** C7 (counterexample): with no number of loop iterations does the scenario
    give the returns [0, 1, 0] and the counters [0, 1]. *)
Lemma scenario_is_not_the_spec_trace :
  ¬ ∃ fuel, three_acquires_release_first fuel (__init__ (Some 2))
            = Returned [0; 1; 0] [0; 1].
Proof.
  intros [[|fuel] Hrun]; [done|].
  by rewrite three_acquires_release_first_fuel in Hrun.
Qed.

(** C7 (amended): on a fresh pool of two GPUs, acquire, acquire, acquire,
    release(first id) runs to its end; the first acquire returns 0, and after
    the release the counters are [1, 1]: three leases taken, one given back,
    one left on each GPU. *)
Theorem scenario_first_return_and_counters (fuel : nat) :
  ∃ g2 g3, three_acquires_release_first (S fuel) (__init__ (Some 2))
           = Returned [0; g2; g3] [1; 1].
Proof.
  rewrite three_acquires_release_first_fuel. by exists 0, 1.
Qed.

(** C8 (fails on the code): a trial whose training raises leaves [__call__]
    before the decrement, so the counter its acquire raised stays raised; a
    trial that succeeds gives its lease back. *)
Theorem faulted_trial_keeps_its_lease (fuel : nat) :
  __call__ nat (λ _, None) (S fuel) true (__init__ (Some 1))
  = Raised TrainingError [1] ∧
  __call__ nat (λ _, Some 7%nat) (S fuel) true (__init__ (Some 1))
  = Returned 7%nat [0].
Proof.
  unfold __call__, mbind, M_bind. by rewrite get_next_gpu_fuel.
Qed.

(** C9: when [get_next_gpu] returns, the counter of the GPU it chose was at
    most 1 and is now one more, and a pool whose counters were all at most 2
    still is; hence from a fresh pool of any size no sequence of calls
    brings a counter above 2. *)
Theorem get_next_gpu_caps_counters_at_2 :
  (∀ fuel (s : list Z) g s',
     get_next_gpu fuel s = Returned g s' →
     ∃ (k : nat) c,
       g = Z.of_nat k ∧ s !! k = Some c ∧ c ≤ 1 ∧ s' = <[k := c + 1]> s ∧
       (Forall (λ c, c ≤ 2) s → Forall (λ c, c ≤ 2) s')) ∧
  (∀ fuel num_gpus calls s leases,
     exec fuel calls (__init__ num_gpus) [] = Finished s leases →
     Forall (λ c, c ≤ 2) s).
Proof.
  split.
  - intros fuel s g s' Hacq.
    pose proof Hacq as (_ & k & c & -> & Hk & Hc & _ & ->)%get_next_gpu_Returned.
    exists k, c. repeat split; [done..|].
    intros Hs. by eapply capped_acquire.
  - intros fuel num_gpus calls s leases Hexec.
    eapply capped_exec; [apply capped_init | done].
Qed.

Lemma get_next_gpu_caps_counters_at_2_witness :
  (∃ (k : nat) c,
     1 = Z.of_nat k ∧ [2; 1; 1] !! k = Some c ∧ c ≤ 1 ∧
     [2; 2; 1] = <[k := c + 1]> [2; 1; 1] ∧
     (Forall (λ c, c ≤ 2) [2; 1; 1] → Forall (λ c, c ≤ 2) [2; 2; 1])) ∧
  Forall (λ c, c ≤ 2) [2; 2].
Proof.
  split.
  - apply (proj1 get_next_gpu_caps_counters_at_2 1%nat [2; 1; 1] 1 [2; 2; 1]).
    vm_compute. reflexivity.
  - apply (proj2 get_next_gpu_caps_counters_at_2 1%nat (Some 2)
             [Acquire; Acquire; Acquire; Acquire] [2; 2] [1; 1; 0; 0]).
    vm_compute. reflexivity.
Defined.

(** C10: a release with a negative id within [-num_devices, -1] raises
    nothing; it decrements the counter at position [num_devices + id],
    counting from the end of the pool, so [release(-1)] decrements the last
    GPU's counter. *)
Theorem release_negative_id_wraps (s : list Z) (gpu_id : Z) :
  - Z.of_nat (length s) ≤ gpu_id < 0 →
  ∃ c, s !! Z.to_nat (Z.of_nat (length s) + gpu_id) = Some c ∧
       release gpu_id s
       = Returned () (<[Z.to_nat (Z.of_nat (length s) + gpu_id) := c - 1]> s).
Proof.
  intros Hneg.
  destruct (lookup_lt_is_Some_2 s (Z.to_nat (Z.of_nat (length s) + gpu_id)))
    as [c Hc]; [lia|].
  exists c. split; [done|].
  unfold release, gpu_status_iadd.
  rewrite py_index_negative by done. by rewrite Hc.
Qed.

Lemma release_negative_id_wraps_witness :
  ∃ c, [1; 2; 3] !! Z.to_nat (Z.of_nat (length [1; 2; 3]) + -1) = Some c ∧
       release (-1) [1; 2; 3]
       = Returned ()
           (<[Z.to_nat (Z.of_nat (length [1; 2; 3]) + -1) := c - 1]> [1; 2; 3]).
Proof.
  apply (release_negative_id_wraps [1; 2; 3] (-1)). simpl. lia.
Defined.

(** ** Further properties of the code *)

Section more_facts.
Implicit Types (s : list Z) (k : nat) (g c : Z).

Lemma get_next_gpu_returns fuel s :
  Exists (λ c, c ≤ 1) s → ∃ g s', get_next_gpu (S fuel) s = Returned g s'.
Proof.
  intros Hex.
  destruct (get_next_gpu (S fuel) s) as [g s'|e s'|] eqn:Hacq; [by eauto| |].
  - by apply get_next_gpu_not_Raised in Hacq.
  - apply get_next_gpu_Diverged in Hacq as [?|Hall]; [done|].
    apply Exists_exists in Hex as (c & Hin & Hc).
    rewrite Forall_forall in Hall. specialize (Hall c Hin). simpl in Hall. lia.
Qed.

Lemma headroom_nonneg s : 0 ≤ headroom s.
Proof. induction s as [|c s IH]; simpl; lia. Qed.

Lemma headroom_insert s k c c' :
  s !! k = Some c →
  headroom (<[k := c']> s) = headroom s - Z.max 0 (2 - c) + Z.max 0 (2 - c').
Proof.
  revert k. induction s as [|x s IH]; intros [|k] Hk; simplify_eq/=.
  - lia.
  - rewrite (IH _ Hk). lia.
Qed.

Lemma headroom_full s : Forall (λ c, 1 < c) s → headroom s = 0.
Proof. induction 1 as [|c s Hc _ IH]; simpl; [done | lia]. Qed.

Lemma headroom_replicate_0 (n : nat) : headroom (replicate n 0) = 2 * Z.of_nat n.
Proof. induction n as [|n IH]; simpl; [done | lia]. Qed.

Lemma headroom_acquire fuel s g s' :
  get_next_gpu fuel s = Returned g s' → headroom s' = headroom s - 1.
Proof.
  intros (_ & k & c & _ & Hk & Hc & _ & ->)%get_next_gpu_Returned.
  rewrite (headroom_insert _ _ _ _ Hk). lia.
Qed.

Lemma acquire_n_S fuel n s :
  acquire_n fuel (S n) s
  = match get_next_gpu fuel s with
    | Returned g s1 =>
        match acquire_n fuel n s1 with
        | Returned gs s2 => Returned (g :: gs) s2
        | Raised e s2 => Raised e s2
        | Diverged => Diverged
        end
    | Raised e s1 => Raised e s1
    | Diverged => Diverged
    end.
Proof. done. Qed.

(** The first GPU whose counter is 0 or 1, behind GPUs with counter 2, is
    the one an acquire takes. *)
Lemma get_next_gpu_behind_full fuel (a : nat) c rest :
  c ≤ 1 →
  get_next_gpu (S fuel) (replicate a 2 ++ c :: rest)
  = Returned (Z.of_nat a) (replicate a 2 ++ (c + 1) :: rest).
Proof.
  intros Hc. apply get_next_gpu_Returned. split; [done|].
  exists a, c. split; [done|].
  assert (length (replicate a 2) = a) as Hlen by apply length_replicate.
  split; [|split; [done|split]].
  - rewrite lookup_app_r by lia. by rewrite Hlen, Nat.sub_diag.
  - intros j y Hj Hlt. rewrite lookup_app_l in Hj by lia.
    apply lookup_replicate in Hj as [-> _]. done.
  - rewrite insert_app_r_alt by lia. by rewrite Hlen, Nat.sub_diag.
Qed.
End more_facts.

(** X1: [_find_gpu] returns the lowest index whose counter is at most
    [min_stat], and [None] exactly when every counter is above it. *)
Theorem find_gpu_lowest_index_within_threshold
    (min_stat : Z) (s : list Z) (g : nat) :
  (_find_gpu min_stat s = Some g ↔
   ∃ c, s !! g = Some c ∧ c ≤ min_stat ∧
        ∀ j y, s !! j = Some y → (j < g)%nat → min_stat < y) ∧
  (_find_gpu min_stat s = None ↔ Forall (λ c, min_stat < c) s).
Proof. split; [apply _find_gpu_Some | apply _find_gpu_None]. Qed.

(** X2: a higher threshold never loses a GPU: when [_find_gpu] finds one
    for [min_stat], it finds one for every larger threshold too, at the same
    index or a lower one. *)
Theorem find_gpu_monotone (m m' : Z) (s : list Z) (g : nat) :
  _find_gpu m s = Some g → m ≤ m' →
  ∃ g', _find_gpu m' s = Some g' ∧ (g' ≤ g)%nat.
Proof.
  intros Hfound Hle.
  apply _find_gpu_Some in Hfound as (c & Hg & Hc & _).
  destruct (_find_gpu m' s) as [g'|] eqn:Hf.
  - exists g'. split; [done|].
    apply _find_gpu_Some in Hf as (c' & _ & _ & Hlow).
    destruct (decide (g' ≤ g)%nat) as [|Hgt]; [done|].
    specialize (Hlow g c Hg). lia.
  - apply _find_gpu_None in Hf.
    pose proof (Forall_lookup_1 _ _ _ _ Hf Hg) as Hc'. simpl in Hc'. lia.
Qed.

Lemma find_gpu_monotone_witness :
  ∃ g', _find_gpu 1 [2; 1; 0] = Some g' ∧ (g' ≤ 2)%nat.
Proof.
  apply (find_gpu_monotone 0 1 [2; 1; 0] 2%nat); [reflexivity | lia].
Defined.

(** X3: [get_next_gpu] returns [g] and leaves [s'] exactly when [g] is the
    lowest index whose counter is at most 1 and [s'] is the list with that
    one counter incremented. *)
Theorem get_next_gpu_takes_lowest_ready_gpu
    (fuel : nat) (s : list Z) (g : Z) (s' : list Z) :
  get_next_gpu (S fuel) s = Returned g s' ↔
  ∃ (k : nat) c,
    g = Z.of_nat k ∧ s !! k = Some c ∧ c ≤ 1 ∧
    (∀ j y, s !! j = Some y → (j < k)%nat → 1 < y) ∧
    s' = <[k := c + 1]> s.
Proof.
  rewrite get_next_gpu_Returned. split; [by intros [_ ?] | by split].
Qed.

(** X4: the loop of [get_next_gpu] is decided by its first iteration.  When
    some counter is at most 1 the call returns, with the same result for any
    number of iterations allowed; when all counters exceed 1 it never
    returns.  It never raises. *)
Theorem get_next_gpu_first_iteration_or_never (s : list Z) :
  (Exists (λ c, c ≤ 1) s ∧
   ∃ g s', ∀ fuel, get_next_gpu (S fuel) s = Returned g s') ∨
  (Forall (λ c, 1 < c) s ∧ ∀ fuel, get_next_gpu fuel s = Diverged).
Proof.
  destruct (decide (Exists (λ c, c ≤ 1) s)) as [Hex|Hnex].
  - left. split; [done|].
    destruct (get_next_gpu_returns 0 s Hex) as (g & s' & Hacq).
    exists g, s'. intros fuel. by rewrite get_next_gpu_fuel.
  - right. apply not_Exists_Forall in Hnex; [|intros c; apply _].
    assert (Forall (λ c, 1 < c) s) as Hall.
    { eapply Forall_impl; [exact Hnex|]. simpl. intros c. lia. }
    split; [done|]. intros fuel. apply get_next_gpu_Diverged. by right.
Qed.

(** X5: an acquire that returns gives an id of the pool, keeps the length
    of the list, changes no counter but that id's, and raises the sum of the
    counters by one. *)
Theorem get_next_gpu_effect (fuel : nat) (s : list Z) (g : Z) (s' : list Z) :
  get_next_gpu fuel s = Returned g s' →
  0 ≤ g < Z.of_nat (length s) ∧
  length s' = length s ∧
  sum_status s' = sum_status s + 1 ∧
  ∀ j : nat, Z.of_nat j ≠ g → s' !! j = s !! j.
Proof.
  intros (_ & k & c & -> & Hk & _ & _ & ->)%get_next_gpu_Returned.
  split; [|split; [|split]].
  - apply lookup_lt_Some in Hk. lia.
  - apply length_insert.
  - rewrite (sum_status_insert _ _ _ _ Hk). lia.
  - intros j Hj. apply list_lookup_insert_ne. lia.
Qed.

Lemma get_next_gpu_effect_witness :
  0 ≤ 1 < Z.of_nat (length [2; 1; 1]) ∧
  length [2; 2; 1] = length [2; 1; 1] ∧
  sum_status [2; 2; 1] = sum_status [2; 1; 1] + 1 ∧
  ∀ j : nat, Z.of_nat j ≠ 1 → [2; 2; 1] !! j = [2; 1; 1] !! j.
Proof.
  apply (get_next_gpu_effect 1 [2; 1; 1] 1 [2; 2; 1]). vm_compute. reflexivity.
Defined.

(** X6: a release never hangs.  It returns exactly for an id in
    [-num_devices, num_devices), and then keeps the length of the list and
    lowers the sum of the counters by one; for any other id it raises
    [IndexError] and leaves the list as it was. *)
Theorem release_effect (g : Z) (s : list Z) :
  match release g s with
  | Returned _ s' =>
      - Z.of_nat (length s) ≤ g < Z.of_nat (length s) ∧
      length s' = length s ∧ sum_status s' = sum_status s - 1
  | Raised e s' =>
      e = IndexError ∧ s' = s ∧
      (g < - Z.of_nat (length s) ∨ Z.of_nat (length s) ≤ g)
  | Diverged => False
  end.
Proof.
  destruct (release_cases g s) as [(k & c & Hi & Hk & ->)|[Hi ->]].
  - split; [|split].
    + unfold py_index in Hi. repeat case_decide; simplify_eq; lia.
    + apply length_insert.
    + rewrite (sum_status_insert _ _ _ _ Hk). lia.
  - split; [done|]. split; [done|].
    unfold py_index in Hi. repeat case_decide; simplify_eq; lia.
Qed.

(** X7: while no counter is above 2, a release that returns makes room: the
    next acquire returns at once. *)
Theorem release_unblocks_acquire (fuel : nat) (g : Z) (s s' : list Z) :
  Forall (λ c, c ≤ 2) s →
  release g s = Returned () s' →
  ∃ g' s'', get_next_gpu (S fuel) s' = Returned g' s''.
Proof.
  intros Hs Hrel. apply get_next_gpu_returns.
  destruct (release_cases g s) as [(k & c & _ & Hk & Hret)|[_ Hraise]];
    [|congruence].
  rewrite Hret in Hrel. injection Hrel as <-.
  pose proof (Forall_lookup_1 _ _ _ _ Hs Hk) as Hc. simpl in Hc.
  apply Exists_exists. exists (c - 1). split; [|lia].
  apply list_elem_of_lookup. exists k.
  apply list_lookup_insert_eq. by eapply lookup_lt_Some.
Qed.

Lemma release_unblocks_acquire_witness :
  ∃ g' s'', get_next_gpu 1 [2; 1] = Returned g' s''.
Proof.
  apply (release_unblocks_acquire 0 1 [2; 2] [2; 1]).
  - by repeat constructor.
  - reflexivity.
Defined.

Section capacity_facts.
Implicit Types (s : list Z) (k n m a : nat).

Lemma acquire_n_headroom fuel k s :
  (Z.of_nat k ≤ headroom s →
   ∃ gs s', acquire_n (S fuel) k s = Returned gs s' ∧ length gs = k ∧
            headroom s' = headroom s - Z.of_nat k) ∧
  (headroom s < Z.of_nat k → acquire_n (S fuel) k s = Diverged).
Proof.
  revert s. induction k as [|k IH]; intros s.
  - split.
    + intros _. exists [], s. repeat split. simpl. lia.
    + pose proof (headroom_nonneg s). lia.
  - rewrite acquire_n_S.
    destruct (get_next_gpu (S fuel) s) as [g s1|e s1|] eqn:Hacq.
    + pose proof (headroom_acquire _ _ _ _ Hacq) as Hroom.
      destruct (IH s1) as [IHret IHdiv]. split; intros Hk.
      * destruct IHret as (gs & s2 & -> & Hlen & Hroom2); [lia|].
        exists (g :: gs), s2. repeat split; [simpl; by rewrite Hlen | lia].
      * rewrite IHdiv by lia. done.
    + by apply get_next_gpu_not_Raised in Hacq.
    + apply get_next_gpu_Diverged in Hacq as [?|Hfull]; [done|].
      apply headroom_full in Hfull. split; [lia | done].
Qed.

Lemma init_positive n : (0 < n)%nat → __init__ (Some (Z.of_nat n)) = replicate n 0.
Proof.
  intros Hn. unfold __init__.
  destruct (Z.of_nat n) eqn:Hz; [lia | | lia].
  by rewrite <-Hz, Nat2Z.id.
Qed.

Lemma init_nonnegative (num_gpus : option Z) :
  (∀ z : Z, num_gpus = Some z → 0 ≤ z) →
  ∃ m, __init__ num_gpus = replicate (S m) 0.
Proof.
  intros Hn. unfold __init__. destruct num_gpus as [[|p|p]|].
  - by exists 0%nat.
  - exists (pred (Pos.to_nat p)).
    rewrite Z2Nat.inj_pos. f_equal. lia.
  - specialize (Hn _ eq_refl). lia.
  - by exists 0%nat.
Qed.

(** Pairs of acquires fill the GPUs from the left. *)
Lemma acquire_n_fill fuel m a rest :
  acquire_n (S fuel) (2 * m) (replicate a 2 ++ replicate m 0 ++ rest)
  = Returned (seq a m ≫= λ j, [Z.of_nat j; Z.of_nat j])
      (replicate (a + m) 2 ++ rest).
Proof.
  revert a. induction m as [|m IH]; intros a.
  - simpl. by rewrite Nat.add_0_r.
  - replace (2 * S m)%nat with (S (S (2 * m))) by lia.
    change (replicate (S m) 0 ++ rest) with (0 :: (replicate m 0 ++ rest)).
    rewrite acquire_n_S, get_next_gpu_behind_full by done.
    rewrite acquire_n_S, get_next_gpu_behind_full by done.
    change (0 + 1 + 1) with 2.
    replace (replicate a 2 ++ 2 :: replicate m 0 ++ rest)
      with (replicate (S a) 2 ++ replicate m 0 ++ rest).
    2:{ rewrite replicate_S_end, <-app_assoc. done. }
    rewrite IH. simpl. by rewrite Nat.add_succ_r.
Qed.
End capacity_facts.

(** X8: the pool serves as many acquires in a row as it has headroom, two
    per GPU less what each counter already holds: [k] acquires all return
    when [k] is within the headroom, and use that much of it; with more, the
    run never returns. *)
Theorem acquire_n_capacity (fuel k : nat) (s : list Z) :
  (Z.of_nat k ≤ headroom s →
   ∃ gs s', acquire_n (S fuel) k s = Returned gs s' ∧ length gs = k ∧
            headroom s' = headroom s - Z.of_nat k) ∧
  (headroom s < Z.of_nat k → acquire_n (S fuel) k s = Diverged).
Proof. apply acquire_n_headroom. Qed.

Lemma acquire_n_capacity_witness :
  (∃ gs s', acquire_n 1 3 [1; 0] = Returned gs s' ∧ length gs = 3%nat ∧
            headroom s' = headroom [1; 0] - Z.of_nat 3) ∧
  acquire_n 1 4 [1; 0] = Diverged.
Proof.
  split.
  - apply (proj1 (acquire_n_capacity 0 3 [1; 0])). vm_compute. discriminate.
  - apply (proj2 (acquire_n_capacity 0 4 [1; 0])). vm_compute. reflexivity.
Defined.

(** X9: on a fresh pool of [n] GPUs the acquires come out as
    0, 0, 1, 1, 2, 2, ...: after [2 * m] of them the first [m] counters are
    2 and the others still 0, and after [2 * n] the next acquire never
    returns. *)
Theorem fresh_pool_fill_order (fuel n m : nat) :
  (0 < n)%nat → (m ≤ n)%nat →
  acquire_n (S fuel) (2 * m) (__init__ (Some (Z.of_nat n)))
  = Returned (seq 0 m ≫= λ j, [Z.of_nat j; Z.of_nat j])
      (replicate m 2 ++ replicate (n - m) 0) ∧
  acquire_n (S fuel) (2 * n + 1) (__init__ (Some (Z.of_nat n))) = Diverged.
Proof.
  intros Hn Hm. rewrite init_positive by done. split.
  - replace n with (m + (n - m))%nat at 1 by lia.
    rewrite replicate_add.
    apply (acquire_n_fill fuel m 0 (replicate (n - m) 0)).
  - apply acquire_n_headroom. rewrite headroom_replicate_0. lia.
Qed.

Lemma fresh_pool_fill_order_witness :
  acquire_n 1 (2 * 2) (__init__ (Some (Z.of_nat 3)))
  = Returned (seq 0 2 ≫= λ j, [Z.of_nat j; Z.of_nat j])
      (replicate 2 2 ++ replicate (3 - 2) 0) ∧
  acquire_n 1 (2 * 3 + 1) (__init__ (Some (Z.of_nat 3))) = Diverged.
Proof. apply (fresh_pool_fill_order 0 3 2); lia. Defined.

(** X10: a negative [num_gpus] is truthy, so [num_gpus or 1] keeps it and
    the pool is empty: every acquire spins and every release raises
    [IndexError]. *)
Theorem negative_num_gpus_gives_empty_pool (n : Z) :
  n < 0 →
  __init__ (Some n) = [] ∧
  (∀ fuel, get_next_gpu fuel (__init__ (Some n)) = Diverged) ∧
  (∀ g, release g (__init__ (Some n)) = Raised IndexError []).
Proof.
  intros Hn. assert (__init__ (Some n) = []) as ->.
  { unfold __init__. destruct n; [lia | lia | done]. }
  split; [done|]. split.
  - intros fuel. apply get_next_gpu_Diverged. right. constructor.
  - intros g. unfold release, gpu_status_iadd.
    rewrite py_index_out_of_range; [done | simpl; lia].
Qed.

Lemma negative_num_gpus_gives_empty_pool_witness :
  __init__ (Some (-1)) = [] ∧
  (∀ fuel, get_next_gpu fuel (__init__ (Some (-1))) = Diverged) ∧
  (∀ g, release g (__init__ (Some (-1))) = Raised IndexError []).
Proof. apply (negative_num_gpus_gives_empty_pool (-1)). lia. Defined.

Section trial_facts.
Context {score : Type}.
Implicit Types (fit : option Z → option score) (s : list Z) (g : Z).

Lemma call_returns fuel fit s g s' sc :
  get_next_gpu fuel s = Returned g s' →
  fit (Some g) = Some sc →
  __call__ score fit fuel true s = Returned sc s.
Proof.
  intros Hacq Hfit. unfold __call__, train, mbind, M_bind, mret, M_ret.
  rewrite Hacq, Hfit. by rewrite (release_after_acquire _ _ _ _ Hacq).
Qed.

Lemma run_trials_on_one_gpu fuel (trials : list (option Z → option score))
    s g s' :
  get_next_gpu fuel s = Returned g s' →
  Forall (λ fit, is_Some (fit (Some g))) trials →
  ∃ scores, run_trials fuel true trials s = Returned scores s ∧
            Forall2 (λ fit sc, fit (Some g) = Some sc) trials scores.
Proof.
  intros Hacq. induction 1 as [|fit trials [sc Hfit] _ (scores & Hrun & Hsc)].
  - by exists [].
  - exists (sc :: scores). split; [|by constructor].
    simpl. unfold mbind, M_bind at 1.
    rewrite (call_returns _ _ _ _ _ _ Hacq Hfit).
    unfold mbind, M_bind at 1. by rewrite Hrun.
Qed.

Lemma release_at s g (k : nat) c :
  py_index (length s) g = Some k → s !! k = Some c →
  release g s = Returned () (<[k := c - 1]> s).
Proof.
  intros Hi Hk. unfold release, gpu_status_iadd. by rewrite Hi, Hk.
Qed.
End trial_facts.

(** X11: without GPUs ([use_gpus] false, the default of [__init__])
    [__call__] never returns a score: [gpu_id] is unbound when the decrement
    reads it, so a trial whose training went through ends in
    [UnboundLocalError], and one whose training failed in that failure; the
    counters are not touched. *)
Theorem call_without_gpus_never_returns
    (score : Type) (fit : option Z → option score) (fuel : nat) (s : list Z) :
  __call__ score fit fuel false s
  = Raised (if fit None is Some _ then UnboundLocalError else TrainingError) s.
Proof.
  unfold __call__, train, mbind, M_bind, mret, M_ret, raise.
  by destruct (fit None).
Qed.

(** X12: a trial on GPUs whose acquire returns [g] and whose training on
    [g] succeeds returns the training's score and leaves every counter as it
    found it. *)
Theorem call_returns_score_and_restores_counters
    (score : Type) (fit : option Z → option score) (fuel : nat)
    (s : list Z) (g : Z) (s' : list Z) (sc : score) :
  get_next_gpu fuel s = Returned g s' →
  fit (Some g) = Some sc →
  __call__ score fit fuel true s = Returned sc s.
Proof. apply call_returns. Qed.

Lemma call_returns_score_and_restores_counters_witness :
  __call__ nat (λ gpu_id, if gpu_id is Some 1 then Some 7%nat else None)
    1 true [2; 1; 0]
  = Returned 7%nat [2; 1; 0].
Proof.
  apply (call_returns_score_and_restores_counters nat _ 1 [2; 1; 0] 1 [2; 2; 0]);
    reflexivity.
Defined.

(** X13: a trial on GPUs whose training raises ends in that exception with
    the counters as the acquire left them: the chosen GPU's counter, and so
    the sum of the counters, stays one higher than before the trial. *)
Theorem call_fault_leaves_acquired_state
    (score : Type) (fit : option Z → option score) (fuel : nat)
    (s : list Z) (g : Z) (s' : list Z) :
  get_next_gpu fuel s = Returned g s' →
  fit (Some g) = None →
  __call__ score fit fuel true s = Raised TrainingError s' ∧
  sum_status s' = sum_status s + 1.
Proof.
  intros Hacq Hfit. split.
  - unfold __call__, train, mbind, M_bind, mret, M_ret. by rewrite Hacq, Hfit.
  - apply get_next_gpu_Returned in Hacq as (_ & k & c & _ & Hk & _ & _ & ->).
    rewrite (sum_status_insert _ _ _ _ Hk). lia.
Qed.

Lemma call_fault_leaves_acquired_state_witness :
  __call__ nat (λ _, None) 1 true [2; 1; 0] = Raised TrainingError [2; 2; 0] ∧
  sum_status [2; 2; 0] = sum_status [2; 1; 0] + 1.
Proof.
  apply (call_fault_leaves_acquired_state nat _ 1 [2; 1; 0] 1 [2; 2; 0]);
    reflexivity.
Defined.

(** X14: trials run one after the other on a fresh pool all train on GPU 0,
    however many GPUs the pool has: when each training succeeds there, the
    run returns every trial's score and the pool is fresh again. *)
Theorem sequential_trials_all_use_gpu_0
    (score : Type) (fuel : nat) (num_gpus : option Z)
    (trials : list (option Z → option score)) :
  (∀ n, num_gpus = Some n → 0 ≤ n) →
  Forall (λ fit, is_Some (fit (Some 0))) trials →
  ∃ scores,
    run_trials (S fuel) true trials (__init__ num_gpus)
    = Returned scores (__init__ num_gpus) ∧
    Forall2 (λ fit sc, fit (Some 0) = Some sc) trials scores.
Proof.
  intros Hn Hfit. destruct (init_nonnegative _ Hn) as [m ->].
  eapply (run_trials_on_one_gpu _ _ _ 0); [|done].
  apply (get_next_gpu_behind_full fuel 0 0 (replicate m 0)). done.
Qed.

Lemma sequential_trials_all_use_gpu_0_witness :
  ∃ scores,
    run_trials 1 true
      [λ gpu_id, if gpu_id is Some 0 then Some 3%nat else None;
       λ gpu_id, if gpu_id is Some 0 then Some 5%nat else None]
      (__init__ (Some 2))
    = Returned scores (__init__ (Some 2)) ∧
    Forall2 (λ fit sc, fit (Some 0) = Some sc)
      [λ gpu_id, if gpu_id is Some 0 then Some 3%nat else None;
       λ gpu_id, if gpu_id is Some 0 then Some 5%nat else None]
      scores.
Proof.
  apply (sequential_trials_all_use_gpu_0 nat 0 (Some 2)).
  - intros n [= <-]. lia.
  - repeat constructor; by eexists.
Defined.

(** X15: from a fresh pool, a sequence of acquires and releases in which
    every release names a lease that is out never ends in an exception. *)
Theorem lease_respecting_calls_never_raise
    (fuel : nat) (num_gpus : option Z) (calls : list call) (e : exn) :
  exec fuel calls (__init__ num_gpus) [] ≠ Failed e.
Proof. apply exec_not_Failed, lease_inv_init. Qed.

(** X16: two releases of ids of the pool give the same counters in either
    order. *)
Theorem releases_commute (g1 g2 : Z) (s : list Z) :
  - Z.of_nat (length s) ≤ g1 < Z.of_nat (length s) →
  - Z.of_nat (length s) ≤ g2 < Z.of_nat (length s) →
  (release g1;; release g2) s = (release g2;; release g1) s.
Proof.
  intros H1 H2.
  destruct (release_cases g1 s) as [(k1 & c1 & Hi1 & Hk1 & Hr1)|[Hi1 _]].
  2:{ unfold py_index in Hi1. repeat case_decide; simplify_eq; lia. }
  destruct (release_cases g2 s) as [(k2 & c2 & Hi2 & Hk2 & Hr2)|[Hi2 _]].
  2:{ unfold py_index in Hi2. repeat case_decide; simplify_eq; lia. }
  unfold mbind, M_bind. rewrite Hr1, Hr2.
  destruct (decide (k1 = k2)) as [<-|Hne].
  - simplify_eq.
    rewrite !(release_at _ _ k1 (c1 - 1));
      rewrite ?length_insert; try done;
      by apply list_lookup_insert_eq, (lookup_lt_Some _ _ _ Hk1).
  - rewrite (release_at _ g2 k2 c2), (release_at _ g1 k1 c1);
      rewrite ?length_insert, ?list_lookup_insert_ne; try done.
    by rewrite list_insert_insert_ne.
Qed.

Lemma releases_commute_witness :
  (release 0;; release (-1)) [1; 2; 3] = (release (-1);; release 0) [1; 2; 3].
Proof. apply (releases_commute 0 (-1) [1; 2; 3]); simpl; lia. Defined.

Section flow_facts.
Import PrefectFlow.

Lemma adds_double (l : list Z) :
  zip_with add (inc <$> l) (dec <$> l) = (λ x, x + x) <$> l.
Proof.
  induction l as [|x l IH]; [done|].
  csimpl. rewrite IH. f_equal. unfold add, inc, dec. lia.
Qed.

Lemma list_sum_doubles (i : nat) :
  list_sum ((λ x, x + x) <$> seqZ 0 (Z.of_nat i))
  = Z.of_nat i * (Z.of_nat i - 1).
Proof.
  unfold list_sum. induction i as [|i IH]; [done|].
  rewrite seqZ_S, fmap_app, foldl_app, IH. simpl. lia.
Qed.
End flow_facts.

(** X17: the flow's total over [range(n)] is [n * (n - 1)]: [add] of
    [inc x] and [dec x] is twice [x], and the doubles of 0 .. n-1 are summed.
    For the notebook's [range(100)] this is 9900. *)
Theorem flow_total (n : Z) : 0 ≤ n → PrefectFlow.flow n = n * (n - 1).
Proof.
  intros Hn. unfold PrefectFlow.flow, PrefectFlow.range.
  rewrite adds_double, <-(Z2Nat.id n) by done.
  apply list_sum_doubles.
Qed.

Lemma flow_total_witness : PrefectFlow.flow 100 = 100 * (100 - 1).
Proof. apply (flow_total 100). lia. Defined.
